(** * spring.h: closed-form critically damped springs

    A shallow embedding of [spring.h].  The header is plain arithmetic on the
    C type [float]: every function is a straight line of [+], [-], [*], one
    call of [expf] and, for the angle variant, calls of the project's
    [float_AngleModDeg].  The embedding keeps that arithmetic abstract
    ([FloatOps]) so that each function is transcribed once, operator for
    operator, and is then read

    - in any arithmetic at all, for what holds by the shape of the code;
    - in exact real arithmetic ([real_ops]), for the algebraic laws of the
      update rule;
    - in IEEE-754 binary32 ([binary32_ops], on the standard library's
      [SpecFloat]), for what the machine computes, roundings included.

    Out-parameters ([float *outPos, float *outVel]) become a returned pair
    [(pos, vel)]; the wrapper classes become records with state-passing
    methods. *)

From Stdlib Require Import Reals Lra Lia ZArith Bool.
From Stdlib Require Import SpecFloat.

Set Implicit Arguments.

(** ** The arithmetic of [float] *)

Declare Scope flt_scope.
Delimit Scope flt_scope with flt.

(** What the header uses of [float]: the literal [0.0f], the binary operators,
    unary minus, [expf] of <math.h> and the external [float_AngleModDeg]. *)
Class FloatOps : Type := {
  float : Type;
  f_zero : float;
  f_add : float -> float -> float;
  f_sub : float -> float -> float;
  f_mul : float -> float -> float;
  f_neg : float -> float;
  expf : float -> float;
  float_AngleModDeg : float -> float
}.

Notation "x + y" := (f_add x y) : flt_scope.
Notation "x - y" := (f_sub x y) : flt_scope.
Notation "x * y" := (f_mul x y) : flt_scope.
Notation "- x" := (f_neg x) : flt_scope.

(** What the templates use of their value type [T]: [T()], [+], [-] and the
    product with a [float] on either side. *)
Class VecOps (F : FloatOps) (T : Type) : Type := {
  T_default : T;
  v_add : T -> T -> T;
  v_sub : T -> T -> T;
  v_scale_l : float -> T -> T;
  v_scale_r : T -> float -> T
}.

(** ** The free functions *)

Section Free_functions.
Context {F : FloatOps}.
Local Open Scope flt_scope.

Definition Spring_Premult_Update
    (pos vel springFactor_dt springExp_dt : float) : float * float :=
  let B := vel + springFactor_dt * pos in
  let P1 := (pos + B) * springExp_dt in
  let V1 := B * springExp_dt - springFactor_dt * P1 in
  (P1, V1).

Definition Spring_Premult_Lerp
    (pos vel targetPos springFactor_dt springExp_dt : float) : float * float :=
  let diff := pos - targetPos in
  let '(diffDt, outVel) :=
    Spring_Premult_Update diff vel springFactor_dt springExp_dt in
  (targetPos + diffDt, outVel).

Definition Spring_Exp (springFactor_dt : float) : float :=
  expf (- springFactor_dt).

Definition Spring_Update (pos vel springFactor dt : float) : float * float :=
  let springExp := Spring_Exp (springFactor * dt) in
  let B := vel + springFactor * pos in
  let Pdt := (pos + B * dt) * springExp in
  let Vdt := B * springExp - springFactor * Pdt in
  (Pdt, Vdt).

Definition Spring_Lerp
    (pos vel targetPos springFactor dt : float) : float * float :=
  let diff := pos - targetPos in
  let '(diffDt, outVel) := Spring_Update diff vel springFactor dt in
  (targetPos + diffDt, outVel).

Definition Spring_LerpAngleDegree
    (pos vel targetPos springFactor dt : float) : float * float :=
  let diff := float_AngleModDeg (pos - targetPos) in
  let '(diffDt, outVel) := Spring_Update diff vel springFactor dt in
  (float_AngleModDeg (targetPos + diffDt), outVel).

Section Templates.
Context {T : Type} {V : VecOps F T}.

Definition Spring_VecUpdate (pos vel : T) (springFactor dt : float) : T * T :=
  let springExp := Spring_Exp (springFactor * dt) in
  let B := v_add vel (v_scale_l springFactor pos) in
  let Pdt := v_scale_r (v_add pos (v_scale_r B dt)) springExp in
  let Vdt := v_sub (v_scale_r B springExp) (v_scale_l springFactor Pdt) in
  (Pdt, Vdt).

(** [Spring_VecUpdate] has read all its arguments before it writes.
    [Spring_VecLerp] reads [targetPos] once more after the call has written
    [*outVel]; it is modelled for a [targetPos] that is not the object
    [outVel] points to, which is how [SpringVec::Update] calls it. *)
Definition Spring_VecLerp
    (pos vel targetPos : T) (springFactor dt : float) : T * T :=
  let diff := v_sub pos targetPos in
  let '(diffDt, outVel) := Spring_VecUpdate diff vel springFactor dt in
  (v_add targetPos diffDt, outVel).

End Templates.
End Free_functions.

(** ** The wrapper classes

    Each class holds [pos], [vel] and [target]; a [void] method that assigns to
    [this] becomes a function from the object before the call to the object
    after it. *)

Module SpringVec.
Section Methods.
Context {F : FloatOps} {T : Type} {V : VecOps F T}.

Record t : Type := Make { pos : T; vel : T; target : T }.

Definition Reset (this : t) : t :=
  {| pos := T_default; vel := T_default; target := T_default |}.

(** [Spring_VecLerp] is handed [this->pos] and [this->vel] by reference and
    pointers to the same two fields to write through; it has read both by the
    time it first writes, so the call acts on the values before the call. *)
Definition Update (this : t) (springFactor dt : float) : t :=
  let '(p, v) :=
    Spring_VecLerp (pos this) (vel this) (target this) springFactor dt in
  {| pos := p; vel := v; target := target this |}.

Definition GetTarget (this : t) : T := target this.
Definition GetPos (this : t) : T := pos this.
Definition GetVel (this : t) : T := vel this.

(** A [const T &] argument as a method sees it: a reference to one of the
    object's own fields ([s.ForcePos(s.vel)], [s.ForcePos(s.GetVel())]: the
    accessors return references too), or to a [T] elsewhere, which the
    method's assignments do not reach. *)
Inductive cref : Type :=
  | Elsewhere (value : T)
  | This_pos
  | This_vel
  | This_target.

(** What the reference reads, in the object as it is at that moment. *)
Definition deref (this : t) (r : cref) : T :=
  match r with
  | Elsewhere value => value
  | This_pos => pos this
  | This_vel => vel this
  | This_target => target this
  end.

(** One assignment to a field of [this]. *)
Definition assign_pos (this : t) (value : T) : t :=
  {| pos := value; vel := vel this; target := target this |}.
Definition assign_vel (this : t) (value : T) : t :=
  {| pos := pos this; vel := value; target := target this |}.
Definition assign_target (this : t) (value : T) : t :=
  {| pos := pos this; vel := vel this; target := value |}.

(** The three assignments in the order of the source.  [pos] is a reference:
    it is read for the first assignment and read again for the third, after
    [this->vel] has been overwritten. *)
Definition ForcePos (this : t) (pos : cref) : t :=
  let this := assign_pos this (deref this pos) in
  let this := assign_vel this T_default in
  assign_target this (deref this pos).

(** [SetTarget] reads its reference once, before its only assignment, so the
    value read is all that matters of it. *)
Definition SetTarget (this : t) (target : T) : t :=
  {| pos := pos this; vel := vel this; target := target |}.

End Methods.
Arguments t T : clear implicits.
Arguments cref T : clear implicits.
Arguments This_pos {T}.
Arguments This_vel {T}.
Arguments This_target {T}.
End SpringVec.

Module Spring.
Section Methods.
Context {F : FloatOps}.

Record t : Type := Make { pos : float; vel : float; target : float }.

Definition Reset (this : t) : t :=
  {| pos := f_zero; vel := f_zero; target := f_zero |}.

Definition SetTarget (this : t) (target : float) : t :=
  {| pos := pos this; vel := vel this; target := target |}.

Definition Update (this : t) (springFactor dt : float) : t :=
  let '(p, v) :=
    Spring_Lerp (pos this) (vel this) (target this) springFactor dt in
  {| pos := p; vel := v; target := target this |}.

Definition GetTarget (this : t) : float := target this.
Definition GetPos (this : t) : float := pos this.
Definition GetVel (this : t) : float := vel this.

Definition ForcePos (this : t) (pos : float) : t :=
  {| pos := pos; vel := f_zero; target := pos |}.

End Methods.
Arguments t F : clear implicits.
End Spring.

Module SpringAngle.
Section Methods.
Context {F : FloatOps}.

Record t : Type := Make { pos : float; vel : float; target : float }.

Definition Reset (this : t) : t :=
  {| pos := f_zero; vel := f_zero; target := f_zero |}.

Definition SetTarget (this : t) (target : float) : t :=
  {| pos := pos this; vel := vel this; target := target |}.

Definition Update (this : t) (springFactor dt : float) : t :=
  let '(p, v) :=
    Spring_LerpAngleDegree (pos this) (vel this) (target this) springFactor dt in
  {| pos := p; vel := v; target := target this |}.

Definition GetTarget (this : t) : float := target this.
Definition GetPos (this : t) : float := pos this.
Definition GetVel (this : t) : float := vel this.

Definition ForcePos (this : t) (pos : float) : t :=
  {| pos := pos; vel := f_zero; target := pos |}.

End Methods.
Arguments t F : clear implicits.
End SpringAngle.

Module Spring_Premult.
Section Methods.
Context {F : FloatOps}.

Record t : Type := Make { pos : float; vel : float; target : float }.

Definition Reset (this : t) : t :=
  {| pos := f_zero; vel := f_zero; target := f_zero |}.

Definition SetTarget (this : t) (target : float) : t :=
  {| pos := pos this; vel := vel this; target := target |}.

(** The body calls [Spring_LerpAngleDegree], with [springExp] in the place of
    its [dt] parameter. *)
Definition Update (this : t) (springFactor springExp : float) : t :=
  let '(p, v) :=
    Spring_LerpAngleDegree (pos this) (vel this) (target this)
      springFactor springExp in
  {| pos := p; vel := v; target := target this |}.

Definition GetTarget (this : t) : float := target this.
Definition GetPos (this : t) : float := pos this.
Definition GetVel (this : t) : float := vel this.

End Methods.
Arguments t F : clear implicits.
End Spring_Premult.

(** ** Exact real arithmetic *)

(** Modelled from the spec: [float_AngleModDeg] is not in the header; the spec
    describes it as taking a degree value to the equivalent value in the
    canonical range (-180, 180].  [up r] is the integer with
    [r < up r <= r + 1], so the multiple of 360 added here is the one that
    lands in that range. *)
Definition AngleModDeg (x : R) : R :=
  (x + 360 * IZR (up (- (x + 180) / 360)))%R.

(** [float] read as the real numbers, [expf] as the exponential; the angle
    normalisation is a parameter. *)
Definition real_ops (angle : R -> R) : FloatOps :=
  {| float := R;
     f_zero := 0%R;
     f_add := Rplus;
     f_sub := Rminus;
     f_mul := Rmult;
     f_neg := Ropp;
     expf := exp;
     float_AngleModDeg := angle |}.

(** The two properties the spec asks of an angle normalisation. *)
Definition in_canonical_range (angle : R -> R) : Prop :=
  forall x : R, (-180 < angle x <= 180)%R.

Definition preserves_angle (angle : R -> R) : Prop :=
  forall x : R, exists n : Z, angle x = (x + 360 * IZR n)%R.

(** ** IEEE-754 binary32

    The C type [float] as the machine has it: the standard library's
    [spec_float] with a 24-bit significand and [emax = 128], every operation
    rounded to nearest, ties to even, and every operator of the source rounded
    on its own (no fused multiply-add).  [expf] belongs to the C library and
    [float_AngleModDeg] to the project; both are parameters. *)
Definition binary32_ops (expf angle : spec_float -> spec_float) : FloatOps :=
  {| float := spec_float;
     f_zero := S754_zero false;
     f_add := SFadd 24 128;
     f_sub := SFsub 24 128;
     f_mul := SFmul 24 128;
     f_neg := SFopp;
     expf := expf;
     float_AngleModDeg := angle |}.

(** The binary32 value of an integer literal. *)
Definition b32_of_Z (z : Z) : spec_float := binary_normalize 24 128 z 0 false.

(** [1.0f] and the nearest binary32 to one tenth, [0.1f]. *)
Definition b32_one : spec_float := S754_finite false 8388608 (-23).
Definition b32_tenth : spec_float := S754_finite false 13421773 (-27).

(** Neither an infinity nor a NaN. *)
Definition is_finite (x : spec_float) : bool :=
  match x with
  | S754_zero _ | S754_finite _ _ _ => true
  | S754_infinity _ | S754_nan => false
  end.

(** A value of the format: the significand fits and the exponent is the
    canonical one.  Every result of a binary32 operation is such a value;
    [SpecFloat] states no closure lemma, so where a proof needs it of an
    intermediate result it is asked for. *)
Definition is_binary32 (x : spec_float) : Prop := valid_binary 24 128 x = true.

(** What is used of [expf]: C Annex F fixes [exp(+-0) = 1]. *)
Definition exp_of_zero_is_one (expf : spec_float -> spec_float) : Prop :=
  forall s : bool, expf (S754_zero s) = b32_one.

(** ** Proof steps *)

(** Unfold the free functions down to the operations of the real numbers. *)
Ltac real_arith :=
  cbv [Spring_Update Spring_Exp Spring_Premult_Update Spring_Premult_Lerp
       Spring_Lerp Spring_LerpAngleDegree
       Spring_Premult.Update Spring_Premult.pos Spring_Premult.vel
       Spring_Premult.target
       float f_add f_sub f_mul f_neg f_zero expf float_AngleModDeg
       real_ops fst snd] in *.

(** Unfold [Spring_Update] down to the operations of binary32. *)
Ltac b32_arith :=
  cbv [Spring_Update Spring_Exp
       float f_add f_sub f_mul f_neg f_zero expf binary32_ops].

(** Cases of a finite binary32 value: the infinities and NaN are excluded by
    [is_finite]. *)
Ltac finite_cases x H :=
  destruct x as [? | ? | | ? ? ?]; try discriminate H.

(** ** Callers and instantiations *)

Section Stepping.
Context {F : FloatOps}.

(** A caller's frame loop: [n] calls of [Spring::Update] with the same
    stiffness and time step, the target left alone in between. *)
Definition Spring_Update_times (n : nat) (this : Spring.t F)
    (springFactor dt : float) : Spring.t F :=
  Nat.iter n (fun s => Spring.Update s springFactor dt) this.

(** A fixed-tick loop: [n] calls of [Spring_Premult_Update], each fed the pair
    the last one returned, with the same precomputed coefficients. *)
Definition Spring_Premult_Update_times (n : nat) (pos vel : float)
    (springFactor_dt springExp_dt : float) : float * float :=
  Nat.iter n
    (fun pv => Spring_Premult_Update (fst pv) (snd pv) springFactor_dt springExp_dt)
    (pos, vel).

(** The templates instantiated at [T = float]: [T()] is [0.0f] and the
    operators are those of [float]. *)
Definition float_as_T : VecOps F float :=
  {| T_default := f_zero;
     v_add := f_add;
     v_sub := f_sub;
     v_scale_l := f_mul;
     v_scale_r := f_mul |}.

(** A map between two value types that commutes with everything the
    templates use of them, as taking a coordinate of a vector does. *)
Record commutes_with_operators {T U : Type} (VT : VecOps F T) (VU : VecOps F U)
    (h : T -> U) : Prop := {
  h_add : forall a b : T, h (v_add a b) = v_add (h a) (h b);
  h_sub : forall a b : T, h (v_sub a b) = v_sub (h a) (h b);
  h_scale_l : forall (k : float) (a : T), h (v_scale_l k a) = v_scale_l k (h a);
  h_scale_r : forall (a : T) (k : float), h (v_scale_r a k) = v_scale_r (h a) k;
  h_default : h T_default = T_default
}.

(** The scalar spring that a coordinate [h] of a vector spring is. *)
Definition coordinate_spring {T : Type} (h : T -> float) (s : SpringVec.t T) :
    Spring.t F :=
  Spring.Make (h (SpringVec.pos s)) (h (SpringVec.vel s)) (h (SpringVec.target s)).

End Stepping.

(** A signed zero of binary32. *)
Definition is_zero (x : spec_float) : bool :=
  match x with
  | S754_zero _ => true
  | _ => false
  end.

(** Unfold the scalar wrappers and the free functions down to the operations
    of the real numbers. *)
Ltac real_wrappers :=
  cbv [Spring.Update Spring.ForcePos Spring.Reset Spring.SetTarget
       Spring.pos Spring.vel Spring.target
       SpringAngle.Update SpringAngle.ForcePos SpringAngle.Reset
       SpringAngle.pos SpringAngle.vel SpringAngle.target
       Spring_Update Spring_Exp Spring_Premult_Update Spring_Premult_Lerp
       Spring_Lerp Spring_LerpAngleDegree
       float f_add f_sub f_mul f_neg f_zero expf float_AngleModDeg
       real_ops fst snd] in *.

(** Unfold [Spring::Update] down to the operations of binary32. *)
Ltac b32_wrappers :=
  cbv [Spring.Update Spring.ForcePos Spring.pos Spring.vel Spring.target
       Spring_Lerp Spring_Update Spring_Exp
       float f_add f_sub f_mul f_neg f_zero expf binary32_ops].

(** * Properties *)

(** ** What holds in any arithmetic *)

Section Any_arithmetic.
Context {F : FloatOps}.
Local Open Scope flt_scope.

(** The shape of [Spring_Update], whatever the arithmetic of [float] is. *)
Lemma Spring_Update_shape (pos vel springFactor dt : float) :
  let B := vel + springFactor * pos in
  let decay := expf (- (springFactor * dt)) in
  let pos' := (pos + B * dt) * decay in
  let vel' := B * decay - springFactor * pos' in
  Spring_Update pos vel springFactor dt = (pos', vel').
Proof. reflexivity. Qed.

(** C7. [Spring_Lerp] springs the difference [pos - targetPos] with
    [Spring_Update], adds [targetPos] back to the position that comes out and
    hands the velocity on unchanged. *)
Theorem Spring_Lerp_springs_difference (pos vel targetPos springFactor dt : float) :
  Spring_Lerp pos vel targetPos springFactor dt =
  (targetPos + fst (Spring_Update (pos - targetPos) vel springFactor dt),
   snd (Spring_Update (pos - targetPos) vel springFactor dt)).
Proof.
  unfold Spring_Lerp.
  destruct (Spring_Update (pos - targetPos) vel springFactor dt) as [diffDt outVel].
  reflexivity.
Qed.

(** The premultiplied lerp has the same shape around [Spring_Premult_Update]. *)
Lemma Spring_Premult_Lerp_springs_difference
    (pos vel targetPos springFactor_dt springExp_dt : float) :
  Spring_Premult_Lerp pos vel targetPos springFactor_dt springExp_dt =
  (targetPos +
     fst (Spring_Premult_Update (pos - targetPos) vel springFactor_dt springExp_dt),
   snd (Spring_Premult_Update (pos - targetPos) vel springFactor_dt springExp_dt)).
Proof. reflexivity. Qed.

(** The angle variant: the difference goes through [float_AngleModDeg] before
    the spring, and the sum [targetPos + diffDt] goes through it after. *)
Lemma Spring_LerpAngleDegree_wraps (pos vel targetPos springFactor dt : float) :
  Spring_LerpAngleDegree pos vel targetPos springFactor dt =
  (float_AngleModDeg
     (targetPos +
        fst (Spring_Update (float_AngleModDeg (pos - targetPos)) vel springFactor dt)),
   snd (Spring_Update (float_AngleModDeg (pos - targetPos)) vel springFactor dt)).
Proof. reflexivity. Qed.

(** What [Spring_Premult::Update] stores: the result of the angle lerp, run
    with [springExp] as its time step. *)
Lemma Spring_Premult_Update_stores (this : Spring_Premult.t F)
    (springFactor springExp : float) :
  let r := Spring_LerpAngleDegree (Spring_Premult.pos this) (Spring_Premult.vel this)
             (Spring_Premult.target this) springFactor springExp in
  Spring_Premult.Update this springFactor springExp =
  Spring_Premult.Make (fst r) (snd r) (Spring_Premult.target this).
Proof. reflexivity. Qed.

(** C9. After [ForcePos(x)] on a [Spring] or a [SpringAngle], whatever the
    object held before, [GetPos()] is [x], [GetVel()] is [0.0f] and
    [GetTarget()] is [x]. *)
Theorem ForcePos_scalar_wrappers
    (s : Spring.t F) (a : SpringAngle.t F) (x : float) :
  (Spring.GetPos (Spring.ForcePos s x) = x /\
   Spring.GetVel (Spring.ForcePos s x) = f_zero /\
   Spring.GetTarget (Spring.ForcePos s x) = x) /\
  (SpringAngle.GetPos (SpringAngle.ForcePos a x) = x /\
   SpringAngle.GetVel (SpringAngle.ForcePos a x) = f_zero /\
   SpringAngle.GetTarget (SpringAngle.ForcePos a x) = x).
Proof. repeat split. Qed.

(** C10 fails on the code where the argument is the object's own velocity.
    [SpringVec<T>] has [ForcePos], and it takes its argument by reference.
    Given a [T] elsewhere, or the object's own [pos] or [target], it does what
    [Spring::ForcePos] does: position and target are the value [p] the
    argument had and velocity is [T()].  Given the object's own [vel]
    ([s.ForcePos(s.vel)]), the position is the old velocity, and the target,
    read after the velocity was overwritten, is [T()]. *)
Theorem SpringVec_ForcePos_by_reference (T : Type) (V : VecOps F T)
    (this : SpringVec.t T) (p : T) :
  SpringVec.ForcePos this (SpringVec.Elsewhere p) = SpringVec.Make p T_default p /\
  SpringVec.ForcePos this SpringVec.This_pos =
    SpringVec.Make (SpringVec.pos this) T_default (SpringVec.pos this) /\
  SpringVec.ForcePos this SpringVec.This_target =
    SpringVec.Make (SpringVec.target this) T_default (SpringVec.target this) /\
  SpringVec.ForcePos this SpringVec.This_vel =
    SpringVec.Make (SpringVec.vel this) T_default T_default.
Proof. destruct this as [p0 v0 g0]. repeat split. Qed.

End Any_arithmetic.

(** ** Exact real arithmetic *)

Section Real_arithmetic.
Local Open Scope R_scope.

(** The modelled normalisation has the two properties the spec asks for. *)
Lemma AngleModDeg_in_range : in_canonical_range AngleModDeg.
Proof.
  intros x. unfold AngleModDeg.
  destruct (archimed (- (x + 180) / 360)) as [Hgt Hle].
  lra.
Qed.

Lemma AngleModDeg_preserves : preserves_angle AngleModDeg.
Proof. intros x. exists (up (- (x + 180) / 360)). reflexivity. Qed.

(** The two properties determine the normalisation: it is the one shift by a
    multiple of 360 that lands in (-180, 180]. *)
Lemma angle_unique (angle : R -> R) (x : R) (n : Z) :
  in_canonical_range angle -> preserves_angle angle ->
  -180 < x + 360 * IZR n <= 180 -> angle x = x + 360 * IZR n.
Proof.
  intros Hr He [Hlo Hhi].
  destruct (He x) as [m Hm]. specialize (Hr x). rewrite Hm in Hr |- *.
  assert (Hmn : (m = n)%Z).
  { assert (n - 1 < m)%Z by (apply lt_IZR; rewrite minus_IZR; lra).
    assert (m < n + 1)%Z by (apply lt_IZR; rewrite plus_IZR; lra).
    lia. }
  now subst m.
Qed.

Lemma AngleModDeg_eval (x : R) (n : Z) :
  -180 < x + 360 * IZR n <= 180 -> AngleModDeg x = x + 360 * IZR n.
Proof.
  apply angle_unique; [apply AngleModDeg_in_range | apply AngleModDeg_preserves].
Qed.

(** The decay over [dt1 + dt2] is the product of the two decays. *)
Lemma exp_decay_split (k dt1 dt2 : R) :
  exp (- (k * (dt1 + dt2))) = exp (- (k * dt1)) * exp (- (k * dt2)).
Proof. rewrite <- exp_plus. f_equal. ring. Qed.

(** [(1 + x) e^(-x)] lies strictly between 0 and 1 for positive [x]: the
    critically damped spring neither overshoots nor stalls. *)
Lemma decay_below_one (x : R) : 0 < x -> 0 < (1 + x) * exp (- x) < 1.
Proof.
  intros Hx.
  assert (He : 0 < exp (- x)) by apply exp_pos.
  assert (Hinv : exp x * exp (- x) = 1).
  { rewrite <- exp_plus, Rplus_opp_r. apply exp_0. }
  assert (Hlt : 1 + x < exp x) by (apply exp_ineq1; lra).
  split; nra.
Qed.

(** [1/9 <= e^(-2)], from [e <= 3]. *)
Lemma exp_minus_two_lower : / 9 <= exp (- (1 * 2)).
Proof.
  assert (He : 0 < exp (- (1 * 2))) by apply exp_pos.
  assert (H1 : 0 < exp 1) by apply exp_pos.
  pose proof exp_le_3 as H3.
  assert (Hinv : exp (- (1 * 2)) * (exp 1 * exp 1) = 1).
  { rewrite <- !exp_plus. replace (- (1 * 2) + (1 + 1)) with 0 by ring.
    apply exp_0. }
  assert (Hsq : exp 1 * exp 1 <= 9) by nra.
  apply Rmult_le_reg_r with 9; [lra |].
  rewrite Rinv_l by lra. nra.
Qed.

(** Either reading of the spec's [exp(-springFactor*dt)] is the factor the
    code computes. *)
Lemma Spring_Exp_real (angle : R -> R) (springFactor dt : R) :
  Spring_Exp (F := real_ops angle) (springFactor * dt) = exp (- springFactor * dt).
Proof. real_arith. f_equal. ring. Qed.

Variable angle : R -> R.

(** C4. Composability, over real arithmetic: a step of [dt1] followed by a
    step of [dt2] gives exactly the pair that one step of [dt1 + dt2] gives.
    The claim asks it of [dt1, dt2 >= 0]; it holds of every [dt1] and [dt2]. *)
Theorem Spring_Update_composes (pos vel springFactor dt1 dt2 : R) :
  let '(pos1, vel1) := Spring_Update (F := real_ops angle) pos vel springFactor dt1 in
  Spring_Update (F := real_ops angle) pos1 vel1 springFactor dt2 =
  Spring_Update (F := real_ops angle) pos vel springFactor (dt1 + dt2).
Proof.
  real_arith. rewrite exp_decay_split. f_equal; ring.
Qed.

(** Zero stiffness, over real arithmetic: the update is pure velocity
    integration. *)
Lemma Spring_Update_zero_stiffness_real (pos vel dt : R) :
  Spring_Update (F := real_ops angle) pos vel 0 dt = (pos + vel * dt, vel).
Proof.
  real_arith.
  replace (- (0 * dt)) with 0 by ring. rewrite exp_0. f_equal; ring.
Qed.

(** Zero time step, over real arithmetic: the update is the identity. *)
Lemma Spring_Update_zero_dt_real (pos vel springFactor : R) :
  Spring_Update (F := real_ops angle) pos vel springFactor 0 = (pos, vel).
Proof.
  real_arith.
  replace (- (springFactor * 0)) with 0 by ring. rewrite exp_0. f_equal; ring.
Qed.

(** C1, as amended.  [Spring_Premult_Update] is the update for a unit time
    step: it agrees with [Spring_Update] at [dt = 1]; and for any [dt] it
    agrees once the velocity is counted per step, [vel * dt] going in and
    [vel' * dt] coming out. *)
Theorem Spring_Premult_Update_unit_step :
  (forall pos vel springFactor : R,
     Spring_Premult_Update (F := real_ops angle) pos vel
       (springFactor * 1) (exp (- (springFactor * 1))) =
     Spring_Update (F := real_ops angle) pos vel springFactor 1) /\
  (forall pos vel springFactor dt : R,
     Spring_Premult_Update (F := real_ops angle) pos (vel * dt)
       (springFactor * dt) (exp (- (springFactor * dt))) =
     (fst (Spring_Update (F := real_ops angle) pos vel springFactor dt),
      snd (Spring_Update (F := real_ops angle) pos vel springFactor dt) * dt)).
Proof.
  split; intros; real_arith; f_equal; ring.
Qed.


End Real_arithmetic.

(** *** Concrete runs over the reals *)

Section Real_runs.
Local Open Scope R_scope.

(** C1 as stated fails: at [pos = 0], [vel = 1], [springFactor = 1],
    [dt = 2] the position [Spring_Update] returns is twice the position
    [Spring_Premult_Update] returns, and the two are more than a tenth apart:
    no rounding tolerance covers that. *)
Lemma Spring_Premult_Update_differs_at_dt_2 :
  fst (Spring_Update (F := real_ops AngleModDeg) 0 1 1 2) =
    2 * fst (Spring_Premult_Update (F := real_ops AngleModDeg) 0 1
               (1 * 2) (exp (- (1 * 2)))) /\
  fst (Spring_Update (F := real_ops AngleModDeg) 0 1 1 2) -
    fst (Spring_Premult_Update (F := real_ops AngleModDeg) 0 1
           (1 * 2) (exp (- (1 * 2)))) > / 10.
Proof.
  real_arith. pose proof exp_minus_two_lower as H. split; [ring | lra].
Qed.

(** C2 fails on the code.  [Spring_Premult::Update] runs the angle lerp, so
    from position 400 with target 0, velocity 0 and the consistent
    coefficients [springFactor_dt = 0], [springExp_dt = 1] it stores position
    40, where [Spring_Premult_Lerp] on the same values gives position 400. *)
Theorem Spring_Premult_Update_wraps_position :
  Spring_Premult.Update (Spring_Premult.Make (F := real_ops AngleModDeg) 400 0 0) 0 1 =
    Spring_Premult.Make (F := real_ops AngleModDeg) 40 0 0 /\
  Spring_Premult_Lerp (F := real_ops AngleModDeg) 400 0 0 0 1 = (400, 0).
Proof.
  split.
  - real_arith.
    replace (- (0 * 1)) with 0 by ring. rewrite exp_0.
    rewrite (@AngleModDeg_eval (400 - 0) (-1)) by lra.
    rewrite (@AngleModDeg_eval _ 0) by lra.
    f_equal; lra.
  - real_arith. f_equal; ring.
Qed.

(** The same method inside the canonical range, where nothing wraps: from
    position 0, velocity 1, target 0 and the consistent coefficients
    [springFactor_dt = 1], [springExp_dt = exp (-1)], [Spring_Premult_Lerp]
    returns velocity 0, and the method stores a positive velocity, because it
    takes [springExp] for a time step and computes a decay of its own. *)
Lemma Spring_Premult_Update_takes_exp_for_dt :
  Spring_Premult.vel
    (Spring_Premult.Update (Spring_Premult.Make (F := real_ops AngleModDeg) 0 1 0)
       1 (exp (- 1))) > 0 /\
  snd (Spring_Premult_Lerp (F := real_ops AngleModDeg) 0 1 0 1 (exp (- 1))) = 0.
Proof.
  split.
  - real_arith.
    rewrite (@AngleModDeg_eval (0 - 0) 0) by lra.
    assert (Hd : exp (- 1) < 1).
    { rewrite <- exp_0. apply exp_increasing. lra. }
    assert (He : 0 < exp (- (1 * exp (- 1)))) by apply exp_pos.
    nra.
  - real_arith. ring.
Qed.


End Real_runs.

(** ** Binary32 arithmetic *)

Section Binary32_rounding.

(** Appending [n] zero bits to a significand adds [n] to its bit length. *)
Lemma digits2_pos_shift (m : positive) (n : nat) :
  Zpos (digits2_pos (Nat.iter n xO m)) = (Zpos (digits2_pos m) + Z.of_nat n)%Z.
Proof.
  induction n as [| n IH]; simpl Nat.iter.
  - simpl. lia.
  - cbn [digits2_pos]. rewrite Pos2Z.inj_succ, IH. lia.
Qed.

(** The product of a binary32 value with [1.0f] is that value: the 23 bits
    the product gains are shifted out again and nothing is rounded away. *)
Lemma SFmul_one_r (x : spec_float) :
  is_binary32 x -> SFmul 24 128 x b32_one = x.
Proof.
  destruct x as [s | s | | s m e]; intros Hx;
    [destruct s; reflexivity | destruct s; reflexivity | reflexivity | ].
  unfold is_binary32, valid_binary, bounded, canonical_mantissa in Hx.
  apply andb_prop in Hx as [Hc Hb].
  apply Z.eqb_eq in Hc. apply Z.leb_le in Hb.
  unfold SFmul, b32_one.
  replace (m * 8388608)%positive with (Nat.iter 23 xO m)
    by (rewrite Pos.mul_comm; reflexivity).
  unfold binary_round_aux, shr_fexp.
  cbn [Zdigits2 shr_record_of_loc].
  rewrite digits2_pos_shift.
  replace (Z.pos (digits2_pos m) + Z.of_nat 23 + (e + -23))%Z
    with (Z.pos (digits2_pos m) + e)%Z by lia.
  rewrite Hc.
  replace (e - (e + -23))%Z with 23%Z by lia.
  cbn -[fexp Z.leb Z.sub Z.add].
  replace (e + -23 + 23)%Z with e by lia.
  rewrite Hc, Z.sub_diag. cbn -[Z.leb Z.sub].
  change (128 - 24)%Z with 104%Z in *.
  destruct (Z.leb_spec e 104); [| lia].
  now destruct s.
Qed.

(** Rounding does not look at the sign, so a product changes sign with its
    factor: [(-k) * dt] and [-(k * dt)] are the same binary32 value, and the
    spec's [exp(-springFactor*dt)] is the decay the code computes under either
    reading. *)
Lemma binary_round_aux_opp (s : bool) (m e : Z) (l : location) :
  binary_round_aux 24 128 (negb s) m e l =
  SFopp (binary_round_aux 24 128 s m e l).
Proof.
  unfold binary_round_aux.
  destruct (shr_fexp 24 128 m e l) as [mrs' e'].
  destruct (shr_fexp 24 128 _ e' loc_Exact) as [mrs'' e''].
  destruct (shr_m mrs''); try reflexivity.
  destruct (e'' <=? 128 - 24)%Z; reflexivity.
Qed.

Lemma SFmul_opp_l (x y : spec_float) :
  SFmul 24 128 (SFopp x) y = SFopp (SFmul 24 128 x y).
Proof.
  destruct x as [sx | sx | | sx mx ex], y as [sy | sy | | sy my ey];
    try reflexivity; cbn [SFopp SFmul];
    try (destruct sx, sy; reflexivity).
  rewrite <- binary_round_aux_opp. now destruct sx, sy.
Qed.

Lemma Spring_Exp_binary32 (expf angle : spec_float -> spec_float)
    (springFactor dt : spec_float) :
  Spring_Exp (F := binary32_ops expf angle) (SFmul 24 128 springFactor dt) =
  expf (SFmul 24 128 (SFopp springFactor) dt).
Proof. unfold Spring_Exp. cbn. now rewrite SFmul_opp_l. Qed.

Variables expf angle : spec_float -> spec_float.
Hypothesis expf_zero : exp_of_zero_is_one expf.

(** Zero stiffness in binary32: for finite inputs whose [pos + vel * dt] is
    finite, the update returns that sum and the velocity it was given, bit
    for bit.  ([-0.0f] as velocity is left out: it can come back as
    [+0.0f].) *)
Lemma Spring_Update_zero_stiffness_binary32 (pos vel dt : spec_float) :
  is_finite pos = true ->
  is_binary32 vel -> is_finite vel = true -> vel <> S754_zero true ->
  is_finite dt = true ->
  let P := SFadd 24 128 pos (SFmul 24 128 vel dt) in
  is_binary32 P -> is_finite P = true ->
  Spring_Update (F := binary32_ops expf angle) pos vel (S754_zero false) dt =
  (P, vel).
Proof.
  intros Hfpos Hvel Hfvel Hnz Hdt P HP HfP.
  b32_arith.
  assert (HE : expf (SFopp (SFmul 24 128 (S754_zero false) dt)) = b32_one).
  { finite_cases dt Hdt; apply expf_zero. }
  rewrite HE.
  assert (HB : SFadd 24 128 vel (SFmul 24 128 (S754_zero false) pos) = vel).
  { finite_cases pos Hfpos; finite_cases vel Hfvel; try reflexivity;
      repeat match goal with b : bool |- _ => destruct b end;
      try reflexivity; now elim Hnz. }
  rewrite HB. fold P. rewrite !SFmul_one_r by assumption.
  f_equal.
  finite_cases P HfP; finite_cases vel Hfvel; try reflexivity;
    repeat match goal with b : bool |- _ => destruct b end;
    try reflexivity; now elim Hnz.
Qed.

(** When [pos + vel * dt] overflows to an infinity, the velocity that comes
    back is NaN: the code multiplies that infinity by the zero stiffness. *)
Lemma Spring_Update_zero_stiffness_overflow (pos vel dt : spec_float) (s : bool) :
  is_finite dt = true ->
  SFadd 24 128 pos
    (SFmul 24 128 (SFadd 24 128 vel (SFmul 24 128 (S754_zero false) pos)) dt) =
    S754_infinity s ->
  Spring_Update (F := binary32_ops expf angle) pos vel (S754_zero false) dt =
  (S754_infinity s, S754_nan).
Proof.
  intros Hdt HP.
  b32_arith.
  assert (HE : expf (SFopp (SFmul 24 128 (S754_zero false) dt)) = b32_one).
  { finite_cases dt Hdt; apply expf_zero. }
  rewrite HE, HP.
  destruct (SFmul 24 128 (SFadd 24 128 vel (SFmul 24 128 (S754_zero false) pos))
              b32_one);
    destruct s; reflexivity.
Qed.

(** The run that overflows: [vel = dt = 2^100], finite both, and
    [vel * dt = 2^200] is past the largest binary32. *)
Lemma Spring_Update_zero_stiffness_overflows :
  Spring_Update (F := binary32_ops expf angle)
    (S754_zero false) (S754_finite false 8388608 77)
    (S754_zero false) (S754_finite false 8388608 77) =
  (S754_infinity false, S754_nan).
Proof. now apply Spring_Update_zero_stiffness_overflow. Qed.

(** Zero time step in binary32: for finite inputs whose
    [B = vel + springFactor * pos] is finite, the position comes back as it
    went in, and the velocity comes back as [B - springFactor * pos], two
    roundings away from [vel]. *)
Lemma Spring_Update_zero_dt_binary32 (pos vel springFactor : spec_float) :
  is_binary32 pos -> is_finite pos = true -> pos <> S754_zero true ->
  is_finite springFactor = true ->
  let B := SFadd 24 128 vel (SFmul 24 128 springFactor pos) in
  is_binary32 B -> is_finite B = true ->
  Spring_Update (F := binary32_ops expf angle) pos vel springFactor (S754_zero false) =
  (pos, SFsub 24 128 B (SFmul 24 128 springFactor pos)).
Proof.
  intros Hpos Hfpos Hnz Hk B HB HfB.
  b32_arith. fold B.
  assert (HE : expf (SFopp (SFmul 24 128 springFactor (S754_zero false))) = b32_one).
  { finite_cases springFactor Hk; apply expf_zero. }
  rewrite HE.
  assert (HP : SFadd 24 128 pos (SFmul 24 128 B (S754_zero false)) = pos).
  { finite_cases B HfB; finite_cases pos Hfpos; try reflexivity;
      repeat match goal with b : bool |- _ => destruct b end;
      try reflexivity; now elim Hnz. }
  rewrite HP, !SFmul_one_r by assumption.
  reflexivity.
Qed.

(** The run that loses the velocity: [16777216.0f + 1.0f] is [16777216.0f],
    so from [pos = 16777216], [vel = 1], [springFactor = 1] a step of
    [dt = 0] returns velocity [0]. *)
Lemma Spring_Update_zero_dt_absorbs :
  Spring_Update (F := binary32_ops expf angle)
    (b32_of_Z 16777216) (b32_of_Z 1) (b32_of_Z 1) (S754_zero false) =
  (b32_of_Z 16777216, S754_zero false).
Proof.
  rewrite Spring_Update_zero_dt_binary32;
    [reflexivity | reflexivity | reflexivity | discriminate
     | reflexivity | reflexivity | reflexivity].
Qed.

(** An everyday run: from [pos = 1], [vel = 0.1f], [springFactor = 1] a step
    of [dt = 0] returns the velocity three units in the last place above
    [0.1f]. *)
Lemma Spring_Update_zero_dt_rounds :
  Spring_Update (F := binary32_ops expf angle)
    b32_one b32_tenth b32_one (S754_zero false) =
  (b32_one, S754_finite false 13421776 (-27)).
Proof.
  rewrite Spring_Update_zero_dt_binary32;
    [reflexivity | reflexivity | reflexivity | discriminate
     | reflexivity | reflexivity | reflexivity].
Qed.

End Binary32_rounding.

(** ** The closed form, in every arithmetic *)

(** C3. [Spring_Update] returns exactly the closed-form pair: with
    [B = vel + springFactor * pos] and [decay = exp(-springFactor*dt)], the
    new position is [(pos + B * dt) * decay] and the new velocity is
    [B * decay - springFactor * (new position)].  It holds by the shape of the
    code whatever the arithmetic of [float] is; over the reals and in
    binary32 it holds as well with the decay read as
    [exp ((-springFactor) * dt)]. *)
Theorem Spring_Update_closed_form :
  (forall (F : FloatOps) (pos vel springFactor dt : float),
     let B := (vel + springFactor * pos)%flt in
     let decay := expf (- (springFactor * dt))%flt in
     let pos' := ((pos + B * dt) * decay)%flt in
     let vel' := (B * decay - springFactor * pos')%flt in
     Spring_Update pos vel springFactor dt = (pos', vel')) /\
  (forall (angle : R -> R) (pos vel springFactor dt : R),
     let B := (vel + springFactor * pos)%R in
     let decay := exp (- springFactor * dt) in
     let pos' := ((pos + B * dt) * decay)%R in
     let vel' := (B * decay - springFactor * pos')%R in
     Spring_Update (F := real_ops angle) pos vel springFactor dt = (pos', vel')) /\
  (forall (expf angle : spec_float -> spec_float)
          (pos vel springFactor dt : spec_float),
     let B := SFadd 24 128 vel (SFmul 24 128 springFactor pos) in
     let decay := expf (SFmul 24 128 (SFopp springFactor) dt) in
     let pos' := SFmul 24 128 (SFadd 24 128 pos (SFmul 24 128 B dt)) decay in
     let vel' :=
       SFsub 24 128 (SFmul 24 128 B decay) (SFmul 24 128 springFactor pos') in
     Spring_Update (F := binary32_ops expf angle) pos vel springFactor dt =
     (pos', vel')).
Proof.
  split; [| split].
  - intros. apply Spring_Update_shape.
  - intros angle pos vel k dt B decay pos' vel'.
    unfold vel', pos', decay, B. rewrite <- (Spring_Exp_real angle).
    reflexivity.
  - intros expf angle pos vel k dt B decay pos' vel'.
    unfold vel', pos', decay, B. rewrite <- (Spring_Exp_binary32 expf angle).
    reflexivity.
Qed.

(** ** Zero stiffness, in both arithmetics *)

(** C5, as amended.  With [springFactor = 0], over real arithmetic
    [Spring_Update] returns exactly [(pos + vel * dt, vel)] for every [pos],
    [vel] and [dt]; the code has no division ([FloatOps] has none to offer).
    In binary32 it returns the rounded [pos + vel * dt] and [vel] itself for
    finite inputs whose [pos + vel * dt] is finite ([expf (+-0) = 1], [vel]
    not [-0.0f]).  Overflow of [pos + vel * dt] is where NaN arises
    ([Spring_Update_zero_stiffness_overflow]). *)
Theorem Spring_Update_zero_stiffness :
  (forall (angle : R -> R) (pos vel dt : R),
     Spring_Update (F := real_ops angle) pos vel 0%R dt =
     ((pos + vel * dt)%R, vel)) /\
  (forall (expf angle : spec_float -> spec_float) (pos vel dt : spec_float),
     exp_of_zero_is_one expf ->
     is_finite pos = true ->
     is_binary32 vel -> is_finite vel = true -> vel <> S754_zero true ->
     is_finite dt = true ->
     let P := SFadd 24 128 pos (SFmul 24 128 vel dt) in
     is_binary32 P -> is_finite P = true ->
     Spring_Update (F := binary32_ops expf angle) pos vel (S754_zero false) dt =
     (P, vel)).
Proof.
  split.
  - intros. apply Spring_Update_zero_stiffness_real.
  - intros. now apply Spring_Update_zero_stiffness_binary32.
Qed.

(** The binary32 half of C5 at [pos = 1], [vel = 2], [dt = 3], with an
    [expf] that is 1 at zero: every hypothesis holds there, and the update
    returns [(7, 2)]. *)
Lemma Spring_Update_zero_stiffness_witness :
  exp_of_zero_is_one (fun _ => b32_one) /\
  is_finite (b32_of_Z 1) = true /\
  is_binary32 (b32_of_Z 2) /\ is_finite (b32_of_Z 2) = true /\
  b32_of_Z 2 <> S754_zero true /\
  is_finite (b32_of_Z 3) = true /\
  is_binary32 (SFadd 24 128 (b32_of_Z 1) (SFmul 24 128 (b32_of_Z 2) (b32_of_Z 3))) /\
  is_finite (SFadd 24 128 (b32_of_Z 1) (SFmul 24 128 (b32_of_Z 2) (b32_of_Z 3))) = true /\
  Spring_Update (F := binary32_ops (fun _ => b32_one) (fun x => x))
    (b32_of_Z 1) (b32_of_Z 2) (S754_zero false) (b32_of_Z 3) =
  (b32_of_Z 7, b32_of_Z 2).
Proof.
  split; [intro; reflexivity |].
  split; [reflexivity |].
  split; [reflexivity |].
  split; [reflexivity |].
  split; [discriminate |].
  split; [reflexivity |].
  split; [reflexivity |].
  split; [reflexivity |].
  apply (proj2 Spring_Update_zero_stiffness (fun _ => b32_one) (fun x => x)
           (b32_of_Z 1) (b32_of_Z 2) (b32_of_Z 3)).
  - intro; reflexivity.
  - reflexivity.
  - reflexivity.
  - reflexivity.
  - discriminate.
  - reflexivity.
  - reflexivity.
  - reflexivity.
Defined.

(** C5 as stated fails in binary32: it is not so that, whatever [expf] with
    [expf (+-0) = 1] the C library supplies, the step from [pos = 0] with
    [vel = dt = 2^100] and zero stiffness returns [(pos + vel * dt, vel)].
    [pos + vel * dt] overflows to +infinity and the velocity returned is NaN
    ([Spring_Update_zero_stiffness_overflows]). *)
Lemma Spring_Update_zero_stiffness_yields_nan :
  ~ (forall expf angle : spec_float -> spec_float,
       exp_of_zero_is_one expf ->
       Spring_Update (F := binary32_ops expf angle)
         (S754_zero false) (S754_finite false 8388608 77)
         (S754_zero false) (S754_finite false 8388608 77) =
       (SFadd 24 128 (S754_zero false)
          (SFmul 24 128 (S754_finite false 8388608 77)
             (S754_finite false 8388608 77)),
        S754_finite false 8388608 77)).
Proof.
  intros H.
  specialize (H (fun _ => b32_one) (fun x => x) (fun _ => eq_refl)).
  rewrite Spring_Update_zero_stiffness_overflows in H by (intro; reflexivity).
  discriminate H.
Qed.

(** ** Zero time step, in both arithmetics *)

(** C6, as amended.  With [dt = 0], over real arithmetic [Spring_Update]
    returns exactly [(pos, vel)].  In binary32 (finite inputs, finite
    [B = vel + springFactor * pos], [expf (+-0) = 1]) it returns the position
    unchanged and, for the velocity, [B - springFactor * pos] with every
    operation rounded: [vel] up to rounding, not [vel] itself. *)
Theorem Spring_Update_zero_dt :
  (forall (angle : R -> R) (pos vel springFactor : R),
     Spring_Update (F := real_ops angle) pos vel springFactor 0%R = (pos, vel)) /\
  (forall (expf angle : spec_float -> spec_float)
          (pos vel springFactor : spec_float),
     exp_of_zero_is_one expf ->
     is_binary32 pos -> is_finite pos = true -> pos <> S754_zero true ->
     is_finite springFactor = true ->
     let B := SFadd 24 128 vel (SFmul 24 128 springFactor pos) in
     is_binary32 B -> is_finite B = true ->
     Spring_Update (F := binary32_ops expf angle)
       pos vel springFactor (S754_zero false) =
     (pos, SFsub 24 128 B (SFmul 24 128 springFactor pos))).
Proof.
  split.
  - intros. apply Spring_Update_zero_dt_real.
  - intros. now apply Spring_Update_zero_dt_binary32.
Qed.

(** The binary32 half of C6 at [pos = 1], [vel = 0.1f], [springFactor = 1],
    with an [expf] that is 1 at zero: every hypothesis holds there. *)
Lemma Spring_Update_zero_dt_witness :
  exp_of_zero_is_one (fun _ => b32_one) /\
  is_binary32 b32_one /\ is_finite b32_one = true /\
  b32_one <> S754_zero true /\
  is_binary32 (SFadd 24 128 b32_tenth (SFmul 24 128 b32_one b32_one)) /\
  is_finite (SFadd 24 128 b32_tenth (SFmul 24 128 b32_one b32_one)) = true /\
  Spring_Update (F := binary32_ops (fun _ => b32_one) (fun x => x))
    b32_one b32_tenth b32_one (S754_zero false) =
  (b32_one, S754_finite false 13421776 (-27)).
Proof.
  split; [intro; reflexivity |].
  split; [reflexivity |].
  split; [reflexivity |].
  split; [discriminate |].
  split; [reflexivity |].
  split; [reflexivity |].
  apply (proj2 Spring_Update_zero_dt (fun _ => b32_one) (fun x => x)
           b32_one b32_tenth b32_one).
  - intro; reflexivity.
  - reflexivity.
  - reflexivity.
  - discriminate.
  - reflexivity.
  - reflexivity.
  - reflexivity.
Defined.

(** C6 as stated fails in binary32: it is not so that, whatever [expf] with
    [expf (+-0) = 1] the C library supplies, the step of [dt = 0] from
    [pos = 16777216], [vel = 1], [springFactor = 1] returns [(pos, vel)].
    It returns velocity [0] ([Spring_Update_zero_dt_absorbs]). *)
Lemma Spring_Update_zero_dt_loses_velocity :
  ~ (forall expf angle : spec_float -> spec_float,
       exp_of_zero_is_one expf ->
       Spring_Update (F := binary32_ops expf angle)
         (b32_of_Z 16777216) (b32_of_Z 1) (b32_of_Z 1) (S754_zero false) =
       (b32_of_Z 16777216, b32_of_Z 1)).
Proof.
  intros H.
  specialize (H (fun _ => b32_one) (fun x => x) (fun _ => eq_refl)).
  rewrite Spring_Update_zero_dt_absorbs in H by (intro; reflexivity).
  discriminate H.
Qed.

(** * Further properties of the code *)

(** ** The update rule over the reals *)

Section Real_spring.
Local Open Scope R_scope.
Variable angle : R -> R.

(** [x^2 e^(-x) <= 4] for [x >= 0], from [1 + x/2 <= e^(x/2)]. *)
Lemma exp_neg_quadratic (x : R) : 0 <= x -> exp (- x) * (x * x) <= 4.
Proof.
  intros Hx.
  assert (Hhalf : 1 + x / 2 <= exp (x / 2)) by apply exp_ineq1_le.
  assert (Hsq : exp x = exp (x / 2) * exp (x / 2)).
  { rewrite <- exp_plus. f_equal. lra. }
  assert (Hinv : exp (- x) * exp x = 1).
  { rewrite <- exp_plus, Rplus_opp_l. apply exp_0. }
  assert (He : 0 < exp (- x)) by apply exp_pos.
  assert (Hx2 : x * x <= 4 * exp x).
  { rewrite Hsq. nra. }
  nra.
Qed.

(** X1. The decay factor [Spring_Exp]: it is positive, the factor of a sum is
    the product of the factors, it is at most 1 on a non-negative argument,
    and a larger argument gives a smaller factor. *)
Theorem Spring_Exp_decay (a b : R) :
  Spring_Exp (F := real_ops angle) (a + b) =
    Spring_Exp (F := real_ops angle) a * Spring_Exp (F := real_ops angle) b /\
  0 < Spring_Exp (F := real_ops angle) a /\
  (0 <= a -> Spring_Exp (F := real_ops angle) a <= 1) /\
  (a < b -> Spring_Exp (F := real_ops angle) b < Spring_Exp (F := real_ops angle) a).
Proof.
  real_arith. repeat split.
  - rewrite <- exp_plus. f_equal. ring.
  - apply exp_pos.
  - intros Ha. rewrite <- exp_0. destruct Ha as [Ha | <-].
    + left. apply exp_increasing. lra.
    + right. f_equal. lra.
  - intros Hab. apply exp_increasing. lra.
Qed.

(** X2. What the code calls [B]: the combination [vel + springFactor * pos]
    of the pair that comes out is the combination of the pair that went in,
    scaled by the decay factor. *)
Theorem Spring_Update_decaying_combination (pos vel springFactor dt : R) :
  let '(pos', vel') := Spring_Update (F := real_ops angle) pos vel springFactor dt in
  vel' + springFactor * pos' =
  (vel + springFactor * pos) * Spring_Exp (F := real_ops angle) (springFactor * dt).
Proof. real_arith. ring. Qed.

(** X3. The update is linear in the pair [(pos, vel)]: a weighted sum of two
    states steps to the same weighted sum of their steps. *)
Theorem Spring_Update_linear (a b pos1 vel1 pos2 vel2 springFactor dt : R) :
  let u1 := Spring_Update (F := real_ops angle) pos1 vel1 springFactor dt in
  let u2 := Spring_Update (F := real_ops angle) pos2 vel2 springFactor dt in
  Spring_Update (F := real_ops angle)
    (a * pos1 + b * pos2) (a * vel1 + b * vel2) springFactor dt =
  (a * fst u1 + b * fst u2, a * snd u1 + b * snd u2).
Proof. real_arith. f_equal; ring. Qed.

(** The position returned, as a function of the time step, has the velocity
    returned as its derivative: the line [v(dt) = ...] of the source's
    comment. *)
Lemma position_derivative (pos vel k t : R) :
  derivable_pt_lim
    (fun s => fst (Spring_Update (F := real_ops angle) pos vel k s)) t
    (snd (Spring_Update (F := real_ops angle) pos vel k t)).
Proof.
  real_arith.
  set (B := vel + k * pos).
  apply derivable_pt_lim_ext with
    (f := ((fct_cte pos + mult_real_fct B id)
           * comp exp (- mult_real_fct k id))%F).
  { intro z. reflexivity. }
  replace (B * exp (- (k * t)) - k * ((pos + B * t) * exp (- (k * t))))
    with ((0 + B * 1) * (comp exp (- mult_real_fct k id)%F t)
          + (fct_cte pos + mult_real_fct B id)%F t
            * (exp ((- mult_real_fct k id)%F t) * (- (k * 1))))
    by (unfold comp, opp_fct, mult_real_fct, plus_fct, fct_cte, id; ring).
  apply derivable_pt_lim_mult.
  - apply derivable_pt_lim_plus.
    + apply derivable_pt_lim_const.
    + apply derivable_pt_lim_scal, derivable_pt_lim_id.
  - apply derivable_pt_lim_comp.
    + apply derivable_pt_lim_opp, derivable_pt_lim_scal, derivable_pt_lim_id.
    + apply derivable_pt_lim_exp.
Qed.

Lemma velocity_derivative (pos vel k t : R) :
  derivable_pt_lim
    (fun s => snd (Spring_Update (F := real_ops angle) pos vel k s)) t
    (- (k * k) * fst (Spring_Update (F := real_ops angle) pos vel k t)
     - 2 * k * snd (Spring_Update (F := real_ops angle) pos vel k t)).
Proof.
  pose proof (position_derivative pos vel k t) as Hp.
  real_arith.
  set (B := vel + k * pos) in *.
  apply derivable_pt_lim_ext with
    (f := (mult_real_fct B (comp exp (- mult_real_fct k id))
           - mult_real_fct k
               (fun s => ((pos + B * s) * exp (- (k * s)))%R))%F).
  { intro z. reflexivity. }
  replace (- (k * k) * ((pos + B * t) * exp (- (k * t)))
           - 2 * k * (B * exp (- (k * t))
                      - k * ((pos + B * t) * exp (- (k * t)))))
    with (B * (exp ((- mult_real_fct k id)%F t) * (- (k * 1)))
          - k * (B * exp (- (k * t)) - k * ((pos + B * t) * exp (- (k * t)))))
    by (unfold opp_fct, mult_real_fct, id; ring).
  apply derivable_pt_lim_minus.
  - apply derivable_pt_lim_scal, derivable_pt_lim_comp.
    + apply derivable_pt_lim_opp, derivable_pt_lim_scal, derivable_pt_lim_id.
    + apply derivable_pt_lim_exp.
  - apply derivable_pt_lim_scal. exact Hp.
Qed.

(** X4. [Spring_Update] is the solution of the critically damped spring it is
    named after.  As functions of the time step [t], the pair it returns
    starts at [(pos, vel)], the position has the velocity as its derivative,
    and the velocity has [- k^2 * position - 2 k * velocity] as its
    derivative, [k] being [springFactor]. *)
Theorem Spring_Update_solves_spring_equation (pos vel springFactor t : R) :
  Spring_Update (F := real_ops angle) pos vel springFactor 0 = (pos, vel) /\
  derivable_pt_lim
    (fun s => fst (Spring_Update (F := real_ops angle) pos vel springFactor s)) t
    (snd (Spring_Update (F := real_ops angle) pos vel springFactor t)) /\
  derivable_pt_lim
    (fun s => snd (Spring_Update (F := real_ops angle) pos vel springFactor s)) t
    (- (springFactor * springFactor)
       * fst (Spring_Update (F := real_ops angle) pos vel springFactor t)
     - 2 * springFactor
       * snd (Spring_Update (F := real_ops angle) pos vel springFactor t)).
Proof.
  split; [| split].
  - real_arith. replace (- (springFactor * 0)) with 0 by ring. rewrite exp_0.
    f_equal; ring.
  - apply position_derivative.
  - apply velocity_derivative.
Qed.

(** X5. A step is undone by the step of the opposite time: after
    [Spring_Update] with [dt], [Spring_Update] with [- dt] gives back the
    pair one started from.  No two states step to the same state. *)
Theorem Spring_Update_undone (pos vel springFactor dt : R) :
  let '(pos', vel') := Spring_Update (F := real_ops angle) pos vel springFactor dt in
  Spring_Update (F := real_ops angle) pos' vel' springFactor (- dt) = (pos, vel).
Proof.
  real_arith.
  assert (Hinv : exp (- (springFactor * dt)) * exp (- (springFactor * - dt)) = 1).
  { rewrite <- exp_plus.
    replace (- (springFactor * dt) + - (springFactor * - dt)) with 0 by ring.
    apply exp_0. }
  f_equal.
  - transitivity
      (pos * (exp (- (springFactor * dt)) * exp (- (springFactor * - dt))));
      [ring |].
    rewrite Hinv. ring.
  - transitivity
      (vel * (exp (- (springFactor * dt)) * exp (- (springFactor * - dt))));
      [ring |].
    rewrite Hinv. ring.
Qed.

(** X6. [Spring_Lerp] does not care where the origin is: moving position and
    target by the same [c] moves the position returned by [c] and leaves the
    velocity returned as it was. *)
Theorem Spring_Lerp_translates (c pos vel targetPos springFactor dt : R) :
  Spring_Lerp (F := real_ops angle) (pos + c) vel (targetPos + c) springFactor dt =
  (fst (Spring_Lerp (F := real_ops angle) pos vel targetPos springFactor dt) + c,
   snd (Spring_Lerp (F := real_ops angle) pos vel targetPos springFactor dt)).
Proof. real_arith. f_equal; ring. Qed.

(** X7. From rest, [Spring_Lerp] closes part of the gap and never overshoots:
    with [vel = 0], positive stiffness and positive time step, the distance
    to the target that is left is the distance there was times a factor
    strictly between 0 and 1. *)
Theorem Spring_Lerp_from_rest (pos targetPos springFactor dt : R) :
  0 < springFactor -> 0 < dt ->
  exists c : R, 0 < c < 1 /\
    fst (Spring_Lerp (F := real_ops angle) pos 0 targetPos springFactor dt)
      - targetPos =
    c * (pos - targetPos).
Proof.
  intros Hk Hdt.
  exists ((1 + springFactor * dt) * exp (- (springFactor * dt))). split.
  - apply decay_below_one. nra.
  - real_arith. ring.
Qed.

(** Two calls of [Spring::Update] are one call over the sum of the time
    steps, and a call with time step 0 changes nothing. *)
Lemma Spring_Update_method_composes (this : Spring.t (real_ops angle))
    (k dt1 dt2 : R) :
  Spring.Update (Spring.Update this k dt1) k dt2 = Spring.Update this k (dt1 + dt2).
Proof.
  destruct this as [p v g]. real_wrappers.
  rewrite exp_decay_split. f_equal; ring.
Qed.

Lemma Spring_Update_method_zero_dt (this : Spring.t (real_ops angle)) (k : R) :
  Spring.Update this k 0 = this.
Proof.
  destruct this as [p v g]. real_wrappers.
  replace (- (k * 0)) with 0 by ring. rewrite exp_0. f_equal; ring.
Qed.

Lemma Spring_Update_times_closed (n : nat) (this : Spring.t (real_ops angle))
    (k dt : R) :
  Spring_Update_times n this k dt = Spring.Update this k (INR n * dt).
Proof.
  induction n as [| n IH].
  - simpl. rewrite Rmult_0_l. symmetry. apply Spring_Update_method_zero_dt.
  - unfold Spring_Update_times in *. rewrite Nat.iter_succ, IH.
    rewrite Spring_Update_method_composes. f_equal. rewrite S_INR. ring.
Qed.

(** X8. The frame rate does not matter to a [Spring] whose target stays put:
    two calls of [Update] are one call over the sum of their time steps, and
    [n] calls with time step [dt] leave the object as one call with time step
    [n * dt] does. *)
Theorem Spring_Update_frame_rate (n : nat) (this : Spring.t (real_ops angle))
    (springFactor dt dt1 dt2 : R) :
  Spring.Update (Spring.Update this springFactor dt1) springFactor dt2 =
    Spring.Update this springFactor (dt1 + dt2) /\
  Spring_Update_times n this springFactor dt =
    Spring.Update this springFactor (INR n * dt).
Proof.
  split; [apply Spring_Update_method_composes | apply Spring_Update_times_closed].
Qed.

(** A line in the elapsed time, times the decay, goes to zero along the
    frames. *)
Lemma line_times_decay_vanishes (a b k dt : R) :
  0 < k -> 0 < dt ->
  Un_cv (fun n => (a + b * (INR n * dt)) * exp (- (k * (INR n * dt)))) 0.
Proof.
  intros Hk Hdt eps Heps.
  set (A := Rabs a + Rabs b).
  assert (HA : 0 <= A).
  { unfold A. pose proof (Rabs_pos a). pose proof (Rabs_pos b). lra. }
  destruct (INR_unbounded ((1 + 4 * A / (k * k * eps)) / dt)) as [N HN].
  exists N. intros n Hn.
  set (t := INR n * dt).
  assert (Hkk : 0 < k * k * eps) by (apply Rmult_lt_0_compat; nra).
  assert (Hq : 0 <= 4 * A / (k * k * eps)).
  { apply Rmult_le_pos; [lra | left; now apply Rinv_0_lt_compat]. }
  assert (Ht : 1 + 4 * A / (k * k * eps) < t).
  { unfold t. apply le_INR in Hn.
    replace (1 + 4 * A / (k * k * eps))
      with ((1 + 4 * A / (k * k * eps)) / dt * dt) by (field; nra).
    apply Rmult_lt_compat_r; lra. }
  assert (Ht1 : 1 < t) by lra.
  assert (HtA : 4 * A < k * k * eps * (t - 1)).
  { apply Rmult_lt_reg_r with (/ (k * k * eps)); [now apply Rinv_0_lt_compat |].
    replace (k * k * eps * (t - 1) * / (k * k * eps)) with (t - 1)
      by (field; nra).
    unfold Rdiv in Ht. lra. }
  pose proof (@exp_neg_quadratic (k * t) ltac:(nra)) as Hexp.
  assert (He : 0 < exp (- (k * t))) by apply exp_pos.
  unfold R_dist. rewrite Rminus_0_r, Rabs_mult, (Rabs_pos_eq (exp _)) by lra.
  assert (Hline : Rabs (a + b * t) <= A * t).
  { eapply Rle_trans; [apply Rabs_triang |].
    rewrite Rabs_mult, (Rabs_pos_eq t) by lra.
    unfold A. pose proof (Rabs_pos a). pose proof (Rabs_pos b). nra. }
  assert (Hbound : A * t * exp (- (k * t)) * (k * k * t) <= 4 * A).
  { replace (A * t * exp (- (k * t)) * (k * k * t))
      with (A * (exp (- (k * t)) * (k * t * (k * t)))) by ring.
    nra. }
  assert (Hmain : A * t * exp (- (k * t)) < eps).
  { apply Rmult_lt_reg_r with (k * k * t); [apply Rmult_lt_0_compat; nra |].
    eapply Rle_lt_trans; [exact Hbound |]. nra. }
  eapply Rle_lt_trans; [| exact Hmain].
  apply Rmult_le_compat_r; lra.
Qed.

(** X9. A [Spring] stepped frame after frame settles on its target: with
    positive stiffness and positive time step, whatever position and velocity
    it starts from, the position after [n] calls of [Update] tends to the
    target and the velocity tends to 0 as [n] grows. *)
Theorem Spring_converges (this : Spring.t (real_ops angle)) (springFactor dt : R) :
  0 < springFactor -> 0 < dt ->
  Un_cv (fun n => Spring.pos (Spring_Update_times n this springFactor dt))
    (Spring.target this) /\
  Un_cv (fun n => Spring.vel (Spring_Update_times n this springFactor dt)) 0.
Proof.
  intros Hk Hdt. destruct this as [p v g]. split.
  - pose proof (@line_times_decay_vanishes
                  (p - g) (v + springFactor * (p - g)) springFactor dt Hk Hdt) as H.
    intros eps Heps. destruct (H eps Heps) as [N HN]. exists N. intros n Hn.
    specialize (HN n Hn). rewrite Spring_Update_times_closed.
    unfold R_dist in *. real_wrappers.
    match goal with
    | |- Rabs ?x < _ =>
        match type of HN with
        | Rabs ?y < _ => replace x with y by ring
        end
    end.
    exact HN.
  - pose proof (@line_times_decay_vanishes
                  (v + springFactor * (p - g) - springFactor * (p - g))
                  (- springFactor * (v + springFactor * (p - g)))
                  springFactor dt Hk Hdt) as H.
    intros eps Heps. destruct (H eps Heps) as [N HN]. exists N. intros n Hn.
    specialize (HN n Hn). rewrite Spring_Update_times_closed.
    unfold R_dist in *. real_wrappers.
    match goal with
    | |- Rabs ?x < _ =>
        match type of HN with
        | Rabs ?y < _ => replace x with y by ring
        end
    end.
    exact HN.
Qed.

(** X10. A [Spring] at rest on its target stays there: after [ForcePos(x)],
    and after [Reset()], a call of [Update] with any stiffness and any time
    step leaves the object as it is. *)
Theorem Spring_at_rest_stays (this : Spring.t (real_ops angle))
    (x springFactor dt : R) :
  Spring.Update (Spring.ForcePos this x) springFactor dt = Spring.ForcePos this x /\
  Spring.Update (Spring.Reset this) springFactor dt = Spring.Reset this.
Proof. split; real_wrappers; f_equal; ring. Qed.

(** X14. One tick of the premultiplied lerp is [Spring_Lerp] over a time step
    of 1: with [springExp_dt = Spring_Exp (springFactor_dt)], as the wrapper's
    comment says to compute it, [Spring_Premult_Lerp] returns what
    [Spring_Lerp] returns at [dt = 1]. *)
Theorem Spring_Premult_Lerp_unit_step (pos vel targetPos springFactor_dt : R) :
  Spring_Premult_Lerp (F := real_ops angle) pos vel targetPos springFactor_dt
    (Spring_Exp (F := real_ops angle) springFactor_dt) =
  Spring_Lerp (F := real_ops angle) pos vel targetPos springFactor_dt 1.
Proof.
  real_arith. replace (- (springFactor_dt * 1)) with (- springFactor_dt) by ring.
  f_equal; ring.
Qed.

(** X15. [n] ticks of [Spring_Premult_Update] with the coefficients
    [springFactor_dt] and [Spring_Exp (springFactor_dt)] are one
    [Spring_Update] over a time step of [n]: the fixed-tick loop follows the
    closed form and gathers no error of its own. *)
Theorem Spring_Premult_Update_ticks (n : nat) (pos vel springFactor_dt : R) :
  Spring_Premult_Update_times (F := real_ops angle) n pos vel springFactor_dt
    (Spring_Exp (F := real_ops angle) springFactor_dt) =
  Spring_Update (F := real_ops angle) pos vel springFactor_dt (INR n).
Proof.
  induction n as [| n IH].
  - simpl. real_arith. replace (- (springFactor_dt * 0)) with 0 by ring.
    rewrite exp_0. f_equal; ring.
  - unfold Spring_Premult_Update_times in *. rewrite Nat.iter_succ, IH.
    rewrite S_INR. real_arith.
    rewrite exp_decay_split.
    replace (- (springFactor_dt * 1)) with (- springFactor_dt) by ring.
    f_equal; ring.
Qed.

End Real_spring.

(** ** The angle spring over the reals *)

Section Real_angle.
Local Open Scope R_scope.
Variable angle : R -> R.
Hypothesis angle_range : in_canonical_range angle.
Hypothesis angle_preserves : preserves_angle angle.

(** Whole turns do not change the normalised angle, and an angle in the
    canonical range is its own normalisation. *)
Lemma angle_full_turns (x : R) (n : Z) : angle (x + 360 * IZR n) = angle x.
Proof.
  destruct (angle_preserves x) as [n0 Hn0].
  rewrite (@angle_unique angle (x + 360 * IZR n) (n0 - n)
             angle_range angle_preserves).
  - rewrite Hn0, minus_IZR. ring.
  - rewrite minus_IZR.
    replace (x + 360 * IZR n + 360 * (IZR n0 - IZR n))
      with (x + 360 * IZR n0) by ring.
    rewrite <- Hn0. apply angle_range.
Qed.

Lemma angle_fixes_range (x : R) : -180 < x <= 180 -> angle x = x.
Proof.
  intros Hx.
  rewrite (@angle_unique angle x 0 angle_range angle_preserves); lra.
Qed.

(** X11. The angle spring sees angles, not numbers: adding whole turns to the
    position, to the target, or to both changes neither the position nor the
    velocity [Spring_LerpAngleDegree] returns. *)
Theorem Spring_LerpAngleDegree_full_turns (m j : Z)
    (pos vel targetPos springFactor dt : R) :
  Spring_LerpAngleDegree (F := real_ops angle)
    (pos + 360 * IZR m) vel (targetPos + 360 * IZR j) springFactor dt =
  Spring_LerpAngleDegree (F := real_ops angle) pos vel targetPos springFactor dt.
Proof.
  real_arith.
  replace (pos + 360 * IZR m - (targetPos + 360 * IZR j))
    with (pos - targetPos + 360 * IZR (m - j)) by (rewrite minus_IZR; ring).
  rewrite angle_full_turns.
  set (d := (angle (pos - targetPos)
             + (vel + springFactor * angle (pos - targetPos)) * dt)
            * exp (- (springFactor * dt))).
  replace (targetPos + 360 * IZR j + d) with (targetPos + d + 360 * IZR j) by ring.
  rewrite angle_full_turns. reflexivity.
Qed.

(** X12. A [SpringAngle] at rest on its target: after [ForcePos(x)], a call
    of [Update] stores the normalised [x] as position, velocity 0, and leaves
    the target [x].  So the object stays as it is when [x] is in (-180, 180],
    and when [x] is outside, the position moves off [x] at the first
    [Update], while the target keeps the value outside the range. *)
Theorem SpringAngle_at_rest (this : SpringAngle.t (real_ops angle))
    (x springFactor dt : R) :
  SpringAngle.Update (SpringAngle.ForcePos this x) springFactor dt =
    SpringAngle.Make (F := real_ops angle) (angle x) 0 x /\
  (-180 < x <= 180 ->
   SpringAngle.Update (SpringAngle.ForcePos this x) springFactor dt =
     SpringAngle.ForcePos this x) /\
  (~ -180 < x <= 180 ->
   SpringAngle.pos
     (SpringAngle.Update (SpringAngle.ForcePos this x) springFactor dt) <> x).
Proof.
  assert (H0 : angle (x - x) = 0).
  { replace (x - x) with 0 by ring. apply angle_fixes_range. lra. }
  assert (Hstep : SpringAngle.Update (SpringAngle.ForcePos this x) springFactor dt =
                  SpringAngle.Make (F := real_ops angle) (angle x) 0 x).
  { real_wrappers. rewrite H0. f_equal.
    - f_equal. ring.
    - ring. }
  split; [exact Hstep |]. split.
  - intros Hx. rewrite Hstep. unfold SpringAngle.ForcePos.
    now rewrite (angle_fixes_range Hx).
  - intros Hx Heq. rewrite Hstep in Heq. cbn in Heq.
    apply Hx. rewrite <- Heq. apply angle_range.
Qed.

(** X13. Where nothing needs wrapping the angle spring is the plain spring:
    when [pos - targetPos] is in (-180, 180] and the position [Spring_Lerp]
    returns is too, [Spring_LerpAngleDegree] returns the same pair. *)
Theorem Spring_LerpAngleDegree_without_wrap (pos vel targetPos springFactor dt : R) :
  -180 < pos - targetPos <= 180 ->
  -180 < fst (Spring_Lerp (F := real_ops angle) pos vel targetPos springFactor dt)
    <= 180 ->
  Spring_LerpAngleDegree (F := real_ops angle) pos vel targetPos springFactor dt =
  Spring_Lerp (F := real_ops angle) pos vel targetPos springFactor dt.
Proof.
  intros Hdiff Hres. real_arith.
  rewrite (angle_fixes_range Hdiff), (angle_fixes_range Hres). reflexivity.
Qed.

End Real_angle.

(** ** The vector spring, coordinate by coordinate *)

Section Coordinates.
Context {F : FloatOps} {T : Type} (V : VecOps F T).
Variable h : T -> float.
Hypothesis h_coordinate : commutes_with_operators V float_as_T h.

Lemma Spring_VecUpdate_coordinate (pos vel : T) (k dt : float) :
  Spring_Update (h pos) (h vel) k dt =
  (h (fst (Spring_VecUpdate pos vel k dt)), h (snd (Spring_VecUpdate pos vel k dt))).
Proof.
  destruct h_coordinate as [Hadd Hsub Hl Hr _].
  unfold Spring_VecUpdate, Spring_Update. cbn [fst snd].
  repeat (rewrite Hadd || rewrite Hsub || rewrite Hl || rewrite Hr).
  reflexivity.
Qed.

Lemma Spring_VecLerp_coordinate (pos vel targetPos : T) (k dt : float) :
  Spring_Lerp (h pos) (h vel) (h targetPos) k dt =
  (h (fst (Spring_VecLerp pos vel targetPos k dt)),
   h (snd (Spring_VecLerp pos vel targetPos k dt))).
Proof.
  unfold Spring_VecLerp, Spring_Lerp.
  pose proof (Spring_VecUpdate_coordinate (v_sub pos targetPos) vel k dt) as Hu.
  destruct (Spring_VecUpdate (v_sub pos targetPos) vel k dt) as [d v].
  cbn [fst snd] in *.
  destruct h_coordinate as [Hadd Hsub _ _ _].
  rewrite Hsub in Hu. change (@v_sub F float float_as_T) with (@f_sub F) in Hu.
  rewrite Hu, Hadd. reflexivity.
Qed.

(** X16. Every coordinate of a [SpringVec<T>] is a [Spring].  For a map [h]
    from [T] to [float] that commutes with the operators the templates use
    and takes [T()] to [0.0f], reading the coordinate after [Update],
    [SetTarget] or [Reset] on the vector spring gives what the same method of
    [Spring] gives on the coordinate read before.  So it is after [ForcePos]
    when the argument is not the object's own velocity; with the object's own
    velocity as argument the vector spring ends with target [T()], where
    [Spring::ForcePos], which takes its argument by value, ends with the old
    velocity as target.  This is in any arithmetic of [float], roundings
    included. *)
Theorem SpringVec_coordinate_is_Spring (s : SpringVec.t T) (p : T)
    (r : SpringVec.cref T) (springFactor dt : float) :
  coordinate_spring h (SpringVec.Update s springFactor dt) =
    Spring.Update (coordinate_spring h s) springFactor dt /\
  (r <> SpringVec.This_vel ->
   coordinate_spring h (SpringVec.ForcePos s r) =
     Spring.ForcePos (coordinate_spring h s) (h (SpringVec.deref s r))) /\
  coordinate_spring h (SpringVec.ForcePos s SpringVec.This_vel) =
    Spring.Make (h (SpringVec.vel s)) f_zero f_zero /\
  coordinate_spring h (SpringVec.SetTarget s p) =
    Spring.SetTarget (coordinate_spring h s) (h p) /\
  coordinate_spring h (SpringVec.Reset s) = Spring.Reset (coordinate_spring h s).
Proof.
  split; [| split; [| split; [| split]]].
  - unfold SpringVec.Update, Spring.Update, coordinate_spring.
    cbn [Spring.pos Spring.vel Spring.target].
    rewrite Spring_VecLerp_coordinate.
    destruct (Spring_VecLerp _ _ _ springFactor dt) as [p' v']. reflexivity.
  - intros Hr. destruct s as [p0 v0 g0].
    destruct r as [value | | |]; try (now elim Hr);
      unfold coordinate_spring, Spring.ForcePos; cbn;
      now rewrite (h_default h_coordinate).
  - destruct s as [p0 v0 g0]. unfold coordinate_spring. cbn.
    now rewrite (h_default h_coordinate).
  - reflexivity.
  - unfold coordinate_spring, SpringVec.Reset, Spring.Reset. cbn.
    now rewrite (h_default h_coordinate).
Qed.

End Coordinates.

(** At [T = float] the value itself is its one coordinate. *)
Lemma identity_is_coordinate (F : FloatOps) :
  commutes_with_operators (float_as_T (F := F)) float_as_T (fun x => x).
Proof. split; reflexivity. Qed.

(** ** A spring at rest, in binary32 *)

Section Binary32_rest.
Variables expf angle : spec_float -> spec_float.

(** A finite value minus itself is [+0.0f]. *)
Lemma SFsub_diag (x : spec_float) :
  is_finite x = true -> SFsub 24 128 x x = S754_zero false.
Proof.
  intros Hx. finite_cases x Hx.
  - now destruct s.
  - cbn [SFsub].
    replace (Z.min e e) with e by (symmetry; apply Z.min_id).
    unfold shl_align.
    replace (Z.sub e e) with 0%Z by (symmetry; apply Z.sub_diag).
    cbn [fst].
    match goal with
    | |- binary_normalize _ _ ?d _ _ = _ =>
        replace d with 0%Z by (symmetry; apply Z.sub_diag)
    end.
    reflexivity.
Qed.

(** X17. A settled [Spring] does not drift in binary32.  After [ForcePos(x)]
    with finite [x], a call of [Update] with finite stiffness and time step
    whose decay factor [expf] returns finite leaves the position [x] bit for
    bit (a zero stays a zero), the velocity a zero and the target [x]: no
    rounding error creeps in at rest. *)
Theorem Spring_at_rest_binary32 (this : Spring.t (binary32_ops expf angle))
    (x springFactor dt : spec_float) :
  is_finite x = true -> is_finite springFactor = true -> is_finite dt = true ->
  is_finite (expf (SFopp (SFmul 24 128 springFactor dt))) = true ->
  let after := Spring.Update (Spring.ForcePos this x) springFactor dt in
  (is_zero x = false -> Spring.pos after = x) /\
  (is_zero x = true -> is_zero (Spring.pos after) = true) /\
  is_zero (Spring.vel after) = true /\
  Spring.target after = x.
Proof.
  intros Hx Hk Hdt HE after. unfold after.
  b32_wrappers.
  rewrite SFsub_diag by assumption.
  destruct (expf (SFopp (SFmul 24 128 springFactor dt))) as [sE | sE | | sE mE eE];
    try discriminate HE;
    finite_cases springFactor Hk; finite_cases dt Hdt; finite_cases x Hx;
    repeat match goal with b : bool |- _ => destruct b end;
    cbn; repeat split; intros; try reflexivity; try discriminate.
Qed.

(** X18. When the decay factor overflows, rest is lost.  If [expf] returns an
    infinity for the decay (as it does once [- springFactor * dt] is large,
    which takes a negative stiffness or time step), a [Spring] at rest on a
    finite target comes out of [Update] with position NaN and velocity NaN:
    the code multiplies the zero distance by the infinite factor. *)
Theorem Spring_at_rest_exp_overflow (this : Spring.t (binary32_ops expf angle))
    (x springFactor dt : spec_float) (s : bool) :
  is_finite x = true -> is_finite springFactor = true -> is_finite dt = true ->
  expf (SFopp (SFmul 24 128 springFactor dt)) = S754_infinity s ->
  Spring.pos (Spring.Update (Spring.ForcePos this x) springFactor dt) = S754_nan /\
  Spring.vel (Spring.Update (Spring.ForcePos this x) springFactor dt) = S754_nan.
Proof.
  intros Hx Hk Hdt HE.
  b32_wrappers.
  rewrite SFsub_diag, HE by assumption.
  finite_cases springFactor Hk; finite_cases dt Hdt; finite_cases x Hx;
    repeat match goal with b : bool |- _ => destruct b end;
    cbn; split; reflexivity.
Qed.

End Binary32_rest.

(** ** The hypotheses above, at concrete inputs *)

Section Concrete_inputs.
Local Open Scope R_scope.

Lemma Spring_Lerp_from_rest_witness :
  0 < 1 /\ 0 < 1 /\
  exists c : R, 0 < c < 1 /\
    fst (Spring_Lerp (F := real_ops AngleModDeg) 0 0 100 1 1) - 100 =
    c * (0 - 100).
Proof.
  split; [exact Rlt_0_1 |]. split; [exact Rlt_0_1 |].
  exact (@Spring_Lerp_from_rest AngleModDeg 0 100 1 1 Rlt_0_1 Rlt_0_1).
Defined.

Lemma Spring_converges_witness :
  0 < 1 /\ 0 < 1 /\
  Un_cv (fun n =>
           Spring.pos
             (Spring_Update_times n
                (Spring.Make (F := real_ops AngleModDeg) 0 0 100) 1 1))
    100.
Proof.
  split; [exact Rlt_0_1 |]. split; [exact Rlt_0_1 |].
  exact (proj1 (@Spring_converges AngleModDeg
                   (Spring.Make (F := real_ops AngleModDeg) 0 0 100) 1 1
                   Rlt_0_1 Rlt_0_1)).
Defined.

Lemma Spring_LerpAngleDegree_full_turns_witness :
  in_canonical_range AngleModDeg /\ preserves_angle AngleModDeg /\
  Spring_LerpAngleDegree (F := real_ops AngleModDeg)
    (10 + 360 * IZR 1) 0 (20 + 360 * IZR (-2)) 1 1 =
  Spring_LerpAngleDegree (F := real_ops AngleModDeg) 10 0 20 1 1.
Proof.
  split; [exact AngleModDeg_in_range |]. split; [exact AngleModDeg_preserves |].
  exact (@Spring_LerpAngleDegree_full_turns AngleModDeg
           AngleModDeg_in_range AngleModDeg_preserves 1%Z (-2)%Z 10 0 20 1 1).
Defined.

Lemma SpringAngle_at_rest_witness :
  in_canonical_range AngleModDeg /\ preserves_angle AngleModDeg /\
  SpringAngle.Update
    (SpringAngle.ForcePos (SpringAngle.Make (F := real_ops AngleModDeg) 0 0 0) 270)
    1 1 =
  SpringAngle.Make (F := real_ops AngleModDeg) (AngleModDeg 270) 0 270.
Proof.
  split; [exact AngleModDeg_in_range |]. split; [exact AngleModDeg_preserves |].
  exact (proj1 (@SpringAngle_at_rest AngleModDeg
                  AngleModDeg_in_range AngleModDeg_preserves
                  (SpringAngle.Make (F := real_ops AngleModDeg) 0 0 0) 270 1 1)).
Defined.

Lemma Spring_LerpAngleDegree_without_wrap_witness :
  in_canonical_range AngleModDeg /\ preserves_angle AngleModDeg /\
  -180 < 10 - 20 <= 180 /\
  -180 < fst (Spring_Lerp (F := real_ops AngleModDeg) 10 0 20 1 1) <= 180 /\
  Spring_LerpAngleDegree (F := real_ops AngleModDeg) 10 0 20 1 1 =
  Spring_Lerp (F := real_ops AngleModDeg) 10 0 20 1 1.
Proof.
  assert (H1 : -180 < 10 - 20 <= 180) by lra.
  assert (H2 : -180 <
               fst (Spring_Lerp (F := real_ops AngleModDeg) 10 0 20 1 1) <= 180).
  { assert (Hlt : exp (- (1 * 1)) < 1).
    { apply Rlt_le_trans with (exp 0); [apply exp_increasing; lra |].
      rewrite exp_0. lra. }
    assert (Hpos : 0 < exp (- (1 * 1))) by apply exp_pos.
    real_arith. lra. }
  split; [exact AngleModDeg_in_range |]. split; [exact AngleModDeg_preserves |].
  split; [exact H1 |]. split; [exact H2 |].
  exact (@Spring_LerpAngleDegree_without_wrap AngleModDeg
           AngleModDeg_in_range AngleModDeg_preserves 10 0 20 1 1 H1 H2).
Defined.

Lemma SpringVec_coordinate_is_Spring_witness :
  commutes_with_operators
    (float_as_T (F := real_ops AngleModDeg)) float_as_T (fun x : R => x) /\
  coordinate_spring (F := real_ops AngleModDeg) (fun x : R => x)
    (SpringVec.Update (V := float_as_T (F := real_ops AngleModDeg))
       (SpringVec.Make 0 0 100) 1 1) =
  Spring.Update
    (coordinate_spring (F := real_ops AngleModDeg) (fun x : R => x)
       (SpringVec.Make 0 0 100)) 1 1.
Proof.
  split; [exact (identity_is_coordinate (real_ops AngleModDeg)) |].
  exact (proj1 (@SpringVec_coordinate_is_Spring (real_ops AngleModDeg) R
                  float_as_T (fun x : R => x)
                  (identity_is_coordinate (real_ops AngleModDeg))
                  (SpringVec.Make 0 0 100) 0 SpringVec.This_pos 1 1)).
Defined.

End Concrete_inputs.

Lemma Spring_at_rest_binary32_witness :
  is_finite (b32_of_Z 5) = true /\ is_finite b32_one = true /\
  is_finite b32_tenth = true /\
  is_finite ((fun _ : spec_float => b32_one)
               (SFopp (SFmul 24 128 b32_one b32_tenth))) = true /\
  Spring.pos
    (Spring.Update
       (Spring.ForcePos
          (Spring.Make (F := binary32_ops (fun _ => b32_one) (fun x => x))
             (S754_zero false) (S754_zero false) (S754_zero false))
          (b32_of_Z 5))
       b32_one b32_tenth) = b32_of_Z 5.
Proof.
  split; [reflexivity |]. split; [reflexivity |]. split; [reflexivity |].
  split; [reflexivity |].
  exact (proj1 (@Spring_at_rest_binary32 (fun _ => b32_one) (fun x => x)
                  (Spring.Make (F := binary32_ops (fun _ => b32_one) (fun x => x))
                     (S754_zero false) (S754_zero false) (S754_zero false))
                  (b32_of_Z 5) b32_one b32_tenth
                  eq_refl eq_refl eq_refl eq_refl) eq_refl).
Defined.

Lemma Spring_at_rest_exp_overflow_witness :
  is_finite (b32_of_Z 5) = true /\ is_finite b32_one = true /\
  is_finite b32_tenth = true /\
  (fun _ : spec_float => S754_infinity false)
    (SFopp (SFmul 24 128 b32_one b32_tenth)) = S754_infinity false /\
  Spring.pos
    (Spring.Update
       (Spring.ForcePos
          (Spring.Make
             (F := binary32_ops (fun _ => S754_infinity false) (fun x => x))
             (S754_zero false) (S754_zero false) (S754_zero false))
          (b32_of_Z 5))
       b32_one b32_tenth) = S754_nan.
Proof.
  split; [reflexivity |]. split; [reflexivity |]. split; [reflexivity |].
  split; [reflexivity |].
  exact (proj1 (@Spring_at_rest_exp_overflow
                  (fun _ => S754_infinity false) (fun x => x)
                  (Spring.Make
                     (F := binary32_ops (fun _ => S754_infinity false) (fun x => x))
                     (S754_zero false) (S754_zero false) (S754_zero false))
                  (b32_of_Z 5) b32_one b32_tenth false
                  eq_refl eq_refl eq_refl eq_refl)).
Defined.

(** The run that shows it, on a [SpringVec<float>] over the reals: from
    [{pos = 1, vel = 2, target = 3}], [s.ForcePos(s.vel)] leaves
    [{pos = 2, vel = 0, target = 0}]; the target is not the 2 that was
    passed. *)
Lemma SpringVec_ForcePos_own_velocity_run :
  SpringVec.ForcePos (V := float_as_T (F := real_ops AngleModDeg))
    (SpringVec.Make 1%R 2%R 3%R) SpringVec.This_vel =
    SpringVec.Make 2%R 0%R 0%R /\
  SpringVec.target
    (SpringVec.ForcePos (V := float_as_T (F := real_ops AngleModDeg))
       (SpringVec.Make 1%R 2%R 3%R) SpringVec.This_vel) <> 2%R.
Proof.
  split; [reflexivity |]. cbn. lra.
Qed.
